(** * aw-qt module manager: a shallow embedding of [aw_qt/manager.py]

    The supervisor keeps one [Module] handle per managed child service.
    The handle's methods talk to the operating system through
    [subprocess.Popen], [os] and [logging]; here the operating system is an
    explicit [World] value threaded through every call, and each call made
    to those libraries is recorded in the world's trace. *)

From Stdlib Require Import ZArith List String Ascii Bool Arith Lia.
Import ListNotations.
Open Scope string_scope.

Set Implicit Arguments.

(** ** Outcomes of a Python call *)

(** The exceptions the modelled code can meet. *)
Inductive exn : Type :=
| FileNotFoundError   (* Popen: no such executable *)
| PermissionError     (* Popen: not executable; setpgrp: EPERM *)
| AttributeError      (* attribute access on None *)
| AssertionError.     (* a failed assert statement *)

(** A call returns a value, raises (the state reached when the exception
    leaves the call is kept), or blocks forever. *)
Inductive outcome (S A : Type) : Type :=
| Ret (a : A) (s : S)
| Raise (e : exn) (s : S)
| Hang.

Arguments Ret {S A} a s.
Arguments Raise {S A} e s.
Arguments Hang {S A}.

Definition M (S A : Type) : Type := S -> outcome S A.

Definition ret {S A} (a : A) : M S A := fun s => Ret a s.

Definition bind {S A B} (c : M S A) (k : A -> M S B) : M S B :=
  fun s =>
    match c s with
    | Ret a s' => k a s'
    | Raise e s' => Raise e s'
    | Hang => Hang
    end.

Definition raise {S A} (e : exn) : M S A := fun s => Raise e s.

Definition get {S} : M S S := fun s => Ret s s.

Definition modify {S} (f : S -> S) : M S unit := fun s => Ret tt (f s).

Notation "x <- c1 ;; c2" := (bind c1 (fun x => c2))
  (at level 61, c1 at next level, right associativity).
Notation "c1 ;; c2" := (bind c1 (fun _ => c2))
  (at level 61, right associativity).

(** ** The operating system *)

Inductive level : Type := DEBUG | INFO | WARNING.

(** Calls made to [logging], [print], [os] and [subprocess], in the order
    of the trace: the most recent call is the head of the list. *)
Inductive event : Type :=
| Log (lvl : level) (msg : string)
| Printed (msg : string)
| Setpgrp
| Spawn (argv : list string) (pid : nat)
| Poll (pid : nat)
| Terminate (pid : nat)
| Wait (pid : nat).

Inductive pstatus : Type :=
| NoChild             (* no child with this pid: waitpid gives ECHILD *)
| Running
| Zombie (code : Z)   (* exited, exit status not collected yet *)
| Reaped.             (* exit status collected: waitpid gives ECHILD *)

Record proc : Type := mkProc {
  p_pgid : nat;              (* process group of the process *)
  p_status : pstatus;
  p_on_term : option Z;      (* exit status when SIGTERM kills it; None: ignores SIGTERM *)
  p_fate : option Z          (* exit status it reaches on its own; None: never exits *)
}.

Inductive launch : Type :=
| LaunchOk (on_term fate : option Z)
| LaunchFail (e : exn).

(** The functions of [os.path] the resolver uses; they depend on the
    platform and on the file system, and change nothing. *)
Record ospath : Type := mkOsPath {
  realpath : string -> string;
  dirname : string -> string;
  abspath : string -> string;
  join : string -> string -> string;
  pardir : string;
  isfile : string -> bool
}.

Record World : Type := mkWorld {
  w_windows : bool;                 (* platform.system() == "Windows" *)
  w_path : ospath;                  (* os.path *)
  w_file : string;                  (* __file__ of manager.py *)
  w_launch : list string -> launch; (* what executing an argv leads to *)
  w_pid : nat;                      (* the supervisor's own pid *)
  w_pgid : nat;                     (* the supervisor's process group *)
  w_session_leader : bool;          (* setpgid fails with EPERM for a session leader *)
  w_next_pid : nat;                 (* pid the next child gets *)
  w_procs : nat -> proc;            (* the supervisor's children *)
  w_pipe : nat -> string;           (* unread content of a child's stderr pipe *)
  w_trace : list event
}.

Definition set_trace (t : list event) (w : World) : World :=
  mkWorld (w_windows w) (w_path w) (w_file w) (w_launch w) (w_pid w) (w_pgid w)
          (w_session_leader w) (w_next_pid w) (w_procs w) (w_pipe w) t.

Definition set_pgid (g : nat) (w : World) : World :=
  mkWorld (w_windows w) (w_path w) (w_file w) (w_launch w) (w_pid w) g
          (w_session_leader w) (w_next_pid w) (w_procs w) (w_pipe w) (w_trace w).

Definition set_next_pid (n : nat) (w : World) : World :=
  mkWorld (w_windows w) (w_path w) (w_file w) (w_launch w) (w_pid w) (w_pgid w)
          (w_session_leader w) n (w_procs w) (w_pipe w) (w_trace w).

Definition set_procs (f : nat -> proc) (w : World) : World :=
  mkWorld (w_windows w) (w_path w) (w_file w) (w_launch w) (w_pid w) (w_pgid w)
          (w_session_leader w) (w_next_pid w) f (w_pipe w) (w_trace w).

Definition set_pipe (f : nat -> string) (w : World) : World :=
  mkWorld (w_windows w) (w_path w) (w_file w) (w_launch w) (w_pid w) (w_pgid w)
          (w_session_leader w) (w_next_pid w) (w_procs w) f (w_trace w).

Definition upd {A} (f : nat -> A) (k : nat) (v : A) : nat -> A :=
  fun n => if Nat.eqb n k then v else f n.

Definition status (w : World) (pid : nat) : pstatus := p_status (w_procs w pid).

Definition set_status (pid : nat) (st : pstatus) (w : World) : World :=
  let p := w_procs w pid in
  set_procs (upd (w_procs w) pid (mkProc (p_pgid p) st (p_on_term p) (p_fate p))) w.

Definition emit (e : event) : M World unit :=
  modify (fun w => set_trace (e :: w_trace w) w).

(** [os.setpgrp()]: setpgid(0, 0). The caller becomes the leader of a
    process group of its own; refused for a session leader. *)
Definition os_setpgrp : M World unit :=
  w <- get ;;
  if w_session_leader w then raise PermissionError
  else modify (set_pgid (w_pid w)) ;; emit Setpgrp.

(** ** subprocess.Popen *)

Inductive redirect : Type := Inherit | PIPE.

Record Popen : Type := mkPopen {
  pid : nat;
  returncode : option Z;
  stderr_of : option nat   (* the [stderr] attribute: None unless stderr=PIPE *)
}.

Definition set_returncode (c : option Z) (p : Popen) : Popen :=
  mkPopen (pid p) c (stderr_of p).

(** [Popen(argv, stderr=...)]: fork and exec. The child gets a fresh pid
    and, as no process-group argument or [preexec_fn] is passed, the
    process group of its parent. *)
Definition Popen_init (argv : list string) (stderr : redirect) : M World Popen :=
  w <- get ;;
  match w_launch w argv with
  | LaunchFail e => raise e
  | LaunchOk on_term fate =>
      let child := w_next_pid w in
      modify (fun w =>
        set_next_pid (S child)
          (set_procs (upd (w_procs w) child (mkProc (w_pgid w) Running on_term fate)) w)) ;;
      emit (Spawn argv child) ;;
      ret (mkPopen child None
             match stderr with PIPE => Some child | Inherit => None end)
  end.

(** The collection of the exit status shared by [poll] and [wait], once
    the child is known to have ended. *)
Definition collect (p : Popen) (st : pstatus) : M World Popen :=
  match st with
  | Zombie c => modify (set_status (pid p) Reaped) ;; ret (set_returncode (Some c) p)
  | _ => ret (set_returncode (Some 0%Z) p)   (* ECHILD: taken as exit status 0 *)
  end.

(** [p.poll()]: waitpid with WNOHANG unless the exit status is cached. *)
Definition Popen_poll (p : Popen) : M World Popen :=
  emit (Poll (pid p)) ;;
  match returncode p with
  | Some _ => ret p
  | None =>
      w <- get ;;
      match status w (pid p) with
      | Running => ret p
      | st => collect p st
      end
  end.

(** [p.terminate()]: SIGTERM unless the exit status is cached. *)
Definition Popen_terminate (p : Popen) : M World unit :=
  emit (Terminate (pid p)) ;;
  match returncode p with
  | Some _ => ret tt
  | None =>
      w <- get ;;
      match status w (pid p), p_on_term (w_procs w (pid p)) with
      | Running, Some c => modify (set_status (pid p) (Zombie c))
      | _, _ => ret tt
      end
  end.

(** [p.wait()] without a timeout: blocks until the child has ended. *)
Definition Popen_wait (p : Popen) : M World Popen :=
  emit (Wait (pid p)) ;;
  match returncode p with
  | Some _ => ret p
  | None =>
      w <- get ;;
      match status w (pid p) with
      | Running =>
          match p_fate (w_procs w (pid p)) with
          | Some c => modify (set_status (pid p) Reaped) ;; ret (set_returncode (Some c) p)
          | None => fun _ => Hang
          end
      | st => collect p st
      end
  end.

(** [p.stderr.read()]. *)
Definition Popen_stderr_read (p : option Popen) : M World string :=
  match p with
  | None => raise AttributeError
  | Some p =>
      match stderr_of p with
      | None => raise AttributeError
      | Some fd =>
          w <- get ;;
          modify (set_pipe (upd (w_pipe w) fd "")) ;;
          ret (w_pipe w fd)
      end
  end.

(** ** The executable resolver *)

(** The [for exec_path in exec_paths: ... else: ...] loop of
    [_locate_executable]: the first path that is a file is returned, the
    [else] clause runs when the list is exhausted. *)
Fixpoint for_exec_paths (os : ospath) (name : string) (exec_paths : list string)
  : list string :=
  match exec_paths with
  | [] => [name]
  | exec_path :: rest =>
      if isfile os exec_path then [exec_path] else for_exec_paths os name rest
  end.

Definition _locate_executable (name : string) : M World (list string) :=
  w <- get ;;
  let os := w_path w in
  let curr_filepath := realpath os (w_file w) in
  let curr_dir := dirname os curr_filepath in
  let search_paths := [curr_dir; abspath os (join os curr_dir (pardir os))] in
  let exec_paths := map (fun path => join os path name) search_paths in
  ret (for_exec_paths os name exec_paths).

(** ** The module handle *)

Record Module : Type := mkModule {
  name : string;
  started : bool;
  _process : option Popen;
  _last_process : option Popen;
  _log : string
}.

Definition Module_init (name : string) : Module :=
  mkModule name false None None "".

Definition set_started (b : bool) (m : Module) : Module :=
  mkModule (name m) b (_process m) (_last_process m) (_log m).

Definition set_process (p : option Popen) (m : Module) : Module :=
  mkModule (name m) (started m) p (_last_process m) (_log m).

Definition set_last_process (p : option Popen) (m : Module) : Module :=
  mkModule (name m) (started m) (_process m) p (_log m).

Definition set_log (l : string) (m : Module) : Module :=
  mkModule (name m) (started m) (_process m) (_last_process m) l.

(** A method runs on its handle and on the operating system. *)
Record MState : Type := mkMState { self : Module; world : World }.

Definition liftW {A} (c : M World A) : M MState A :=
  fun s =>
    match c (world s) with
    | Ret a w => Ret a (mkMState (self s) w)
    | Raise e w => Raise e (mkMState (self s) w)
    | Hang => Hang
    end.

Definition getattr {A} (f : Module -> A) : M MState A :=
  fun s => Ret (f (self s)) s.

Definition setattr (f : Module -> Module) : M MState unit :=
  fun s => Ret tt (mkMState (f (self s)) (world s)).

Definition logger (lvl : level) (msg : string) : M MState unit :=
  liftW (emit (Log lvl msg)).

Definition print (msg : string) : M MState unit :=
  liftW (emit (Printed msg)).

(** Python truthiness of an [Optional[Popen]]: a Popen object is true. *)
Definition truthy {A} (o : option A) : bool :=
  match o with Some _ => true | None => false end.

Definition start (testing : bool) : M MState unit :=
  n <- getattr name ;;
  logger INFO ("Starting module " ++ n) ;;
  w <- liftW get ;;
  (if negb (w_windows w) then liftW os_setpgrp else ret tt) ;;
  located <- liftW (_locate_executable n) ;;
  let exec_cmd := if testing then (located ++ ["--testing"])%list else located in
  p <- liftW (Popen_init exec_cmd Inherit) ;;
  setattr (set_process (Some p)) ;;
  setattr (set_started true).

Definition is_alive : M MState bool :=
  cur <- getattr _process ;;
  match cur with
  | None => ret false
  | Some p =>
      p' <- liftW (Popen_poll p) ;;
      setattr (set_process (Some p')) ;;
      ret (match returncode p' with None => true | Some _ => false end)
  end.

(** [self._process.terminate()] and [self._process.wait()]. *)
Definition process_terminate : M MState unit :=
  cur <- getattr _process ;;
  match cur with
  | None => raise AttributeError
  | Some p => liftW (Popen_terminate p)
  end.

Definition process_wait : M MState unit :=
  cur <- getattr _process ;;
  match cur with
  | None => raise AttributeError
  | Some p => p' <- liftW (Popen_wait p) ;; setattr (set_process (Some p'))
  end.

Definition stop : M MState unit :=
  st <- getattr started ;;
  n <- getattr name ;;
  if negb st then
    logger WARNING ("Tried to stop module " ++ n ++ ", but it hasn't been started")
  else
    alive <- is_alive ;;
    (if negb alive then
       logger WARNING ("Tried to stop module " ++ n ++ ", but it wasn't running")
     else
       logger DEBUG ("Stopping module " ++ n) ;;
       process_terminate ;;
       logger DEBUG ("Waiting for module " ++ n ++ " to shut down") ;;
       process_wait ;;
       logger INFO ("Stopped module " ++ n)) ;;
    alive' <- is_alive ;;
    (if alive' then raise AssertionError else ret tt) ;;
    cur <- getattr _process ;;
    setattr (set_last_process cur) ;;
    setattr (set_process None) ;;
    setattr (set_started false).

Definition toggle (testing : bool) : M MState unit :=
  st <- getattr started ;;
  if st then stop else start testing.

Definition nl : string := String (ascii_of_nat 10) EmptyString.

Definition stderr : M MState string :=
  alive <- is_alive ;;
  if alive then ret "Can't fetch output while running"
  else
    cur <- getattr _process ;;
    last <- getattr _last_process ;;
    if negb (truthy cur) && negb (truthy last) then
      ret "Module not started, no output available"
    else
      st <- getattr started ;;
      crashed <- (if st then alive' <- is_alive ;; ret (negb alive') else ret false) ;;
      (if crashed then
         print "Reading active process stderr..." ;;
         l <- getattr _log ;;
         cur <- getattr _process ;;
         out <- liftW (Popen_stderr_read cur) ;;
         setattr (set_log (l ++ out))
       else
         last <- getattr _last_process ;;
         if truthy last then
           print "Reading last process stderr..." ;;
           l <- getattr _log ;;
           out <- liftW (Popen_stderr_read last) ;;
           setattr (set_log (l ++ out))
         else
           l <- getattr _log ;;
           setattr (set_log (l ++ nl ++ nl ++
             "Reading the output of a currently running module is currently broken, sorry."))) ;;
      getattr _log.

(** ** The registry *)

Definition _possible_modules : list string :=
  ["aw-server"; "aw-watcher-afk"; "aw-watcher-window"].

(** The [modules] dict, in insertion order. *)
Definition registry : Type := list (string * Module).

Definition modules : registry :=
  map (fun name => (name, Module_init name)) _possible_modules.

Record RState : Type := mkRState { handles : registry; rworld : World }.

(** The lambda of [get_unexpected_stops]; [and] evaluates its right operand
    only when the left one is true. *)
Definition unexpected : M MState bool :=
  st <- getattr started ;;
  if st then alive <- is_alive ;; ret (negb alive) else ret false.

(** [list(filter(pred, d.values()))]: the handles are visited in order and
    each one is mutated in place by the predicate. *)
Fixpoint filter_values (pred : M MState bool) (d : registry) (w : World)
  : outcome RState (list Module) :=
  match d with
  | [] => Ret [] (mkRState [] w)
  | (k, x) :: rest =>
      match pred (mkMState x w) with
      | Ret b s =>
          match filter_values pred rest (world s) with
          | Ret sel r => Ret (if b then self s :: sel else sel)
                             (mkRState ((k, self s) :: handles r) (rworld r))
          | Raise e r => Raise e (mkRState ((k, self s) :: handles r) (rworld r))
          | Hang => Hang
          end
      | Raise e s => Raise e (mkRState ((k, self s) :: rest) (world s))
      | Hang => Hang
      end
  end.

Definition get_unexpected_stops : M RState (list Module) :=
  fun r => filter_values unexpected (handles r) (rworld r).

(** ** A concrete POSIX world, for running the model *)

Module Posix.

Definition starts_with_slash (s : string) : bool :=
  match s with String c _ => Ascii.eqb c "/" | EmptyString => false end.

Fixpoint ends_with_slash (s : string) : bool :=
  match s with
  | EmptyString => false
  | String c EmptyString => Ascii.eqb c "/"
  | String _ s' => ends_with_slash s'
  end.

(** [posixpath.join] of two components. *)
Definition join (a b : string) : string :=
  if starts_with_slash b then b
  else if String.eqb a "" || ends_with_slash a then a ++ b
  else a ++ "/" ++ b.

Fixpoint split (s : string) : list string :=
  match s with
  | EmptyString => [EmptyString]
  | String c s' =>
      if Ascii.eqb c "/" then EmptyString :: split s'
      else match split s' with
           | [] => [String c EmptyString]
           | h :: t => String c h :: t
           end
  end.

(** [posixpath.normpath] on an absolute path: the components are pushed
    on a stack, [..] pops one. *)
Fixpoint norm (comps stack : list string) : list string :=
  match comps with
  | [] => rev stack
  | c :: rest =>
      if String.eqb c "" || String.eqb c "." then norm rest stack
      else if String.eqb c ".." then norm rest (tl stack)
      else norm rest (c :: stack)
  end.

Definition normpath (p : string) : string :=
  "/" ++ String.concat "/" (norm (split p) []).

(** [posixpath.dirname] of a normalised absolute path. *)
Definition dirname (p : string) : string :=
  normpath (String.concat "/" (removelast (split p))).

Definition ospath (files : list string) : ospath :=
  mkOsPath (fun p => p) dirname normpath join ".."
           (fun p => existsb (String.eqb p) files).

(** Every program starts, ends with status -15 on SIGTERM and otherwise
    runs forever, except those of [missing]. *)
Definition launch (missing : list (list string)) (argv : list string) : launch :=
  if existsb (fun m => if list_eq_dec string_dec m argv then true else false) missing
  then LaunchFail FileNotFoundError
  else LaunchOk (Some (-15)%Z) None.

Definition no_proc : proc := mkProc 0 NoChild None None.

(** The supervisor is pid 100 in the group of its launcher, pid 50. *)
Definition world (files : list string) (missing : list (list string)) : World :=
  mkWorld false (ospath files) "/opt/aw/aw_qt/manager.py" (launch missing)
          100 50 false 101 (fun _ => no_proc) (fun _ => "") [].

End Posix.

(** An external event: a running child ends on its own. *)
Definition crash (pid : nat) (code : Z) (w : World) : World :=
  match status w pid with
  | Running => set_status pid (Zombie code) w
  | _ => w
  end.

(** ** Vocabulary of the statements *)

Definition running (w : World) (pid : nat) : bool :=
  match status w pid with Running => true | _ => false end.

(** What the operating system and the cache of the Popen object say about
    the current process of a handle. *)
Definition alive_now (w : World) (h : Module) : bool :=
  match _process h with
  | None => false
  | Some p => match returncode p with
              | Some _ => false
              | None => running w (pid p)
              end
  end.

(** The Popen object and the world once [poll] has run. *)
Definition polled (w : World) (p : Popen) : Popen :=
  match returncode p with
  | Some _ => p
  | None => match status w (pid p) with
            | Running => p
            | Zombie c => set_returncode (Some c) p
            | _ => set_returncode (Some 0%Z) p
            end
  end.

Definition reaped (w : World) (p : Popen) : World :=
  match returncode p with
  | Some _ => w
  | None => match status w (pid p) with
            | Zombie _ => set_status (pid p) Reaped w
            | _ => w
            end
  end.

Definition after_poll (w : World) (p : Popen) : World :=
  reaped (set_trace (Poll (pid p) :: w_trace w) w) p.

(** Two handles that differ at most in the exit status cached in their
    current process. *)
Definition same_but_returncode (h h' : Module) : Prop :=
  name h' = name h /\ started h' = started h /\
  _last_process h' = _last_process h /\ _log h' = _log h /\
  match _process h, _process h' with
  | None, None => True
  | Some p, Some p' => pid p' = pid p /\ stderr_of p' = stderr_of p
  | _, _ => False
  end.

(** The resolver in the words of its contract: the install directory
    first, its parent second, the bare name last. *)
Definition install_dir (w : World) : string :=
  dirname (w_path w) (realpath (w_path w) (w_file w)).

Definition parent_dir (w : World) : string :=
  abspath (w_path w) (join (w_path w) (install_dir w) (pardir (w_path w))).

Definition resolve (w : World) (name : string) : string :=
  let here := join (w_path w) (install_dir w) name in
  let above := join (w_path w) (parent_dir w) name in
  if isfile (w_path w) here then here
  else if isfile (w_path w) above then above
  else name.

(** The argument vector [start] hands to Popen. *)
Definition start_argv (w : World) (h : Module) (testing : bool) : list string :=
  resolve w (name h) :: (if testing then ["--testing"] else []).

Definition spawns (t : list event) : nat :=
  List.length (filter (fun e => match e with Spawn _ _ => true | _ => false end) t).

Definition polls (t : list event) : nat :=
  List.length (filter (fun e => match e with Poll _ => true | _ => false end) t).

(** The exit status [stop] collects from a running child: SIGTERM ends it,
    or it ignores SIGTERM and ends on its own, or it never ends. *)
Definition exit_on_stop (pr : proc) : option Z :=
  match p_on_term pr with
  | Some c => Some c
  | None => p_fate pr
  end.

(** The calls [get_unexpected_stops] makes to [Popen.poll], oldest first. *)
Definition polls_of (d : registry) : list event :=
  flat_map (fun kh =>
    if started (snd kh)
    then match _process (snd kh) with Some p => [Poll (pid p)] | None => [] end
    else []) d.

Definition unexpected_now (w : World) (h : Module) : bool :=
  started h && negb (alive_now w h).

(** *** Reachable states of one handle *)

Inductive call : Type :=
| CallStart (testing : bool)
| CallStop
| CallToggle (testing : bool)
| CallIsAlive
| CallStderr.

Definition run (c : call) : M MState unit :=
  match c with
  | CallStart t => start t
  | CallStop => stop
  | CallToggle t => toggle t
  | CallIsAlive => is_alive ;; ret tt
  | CallStderr => stderr ;; ret tt
  end.

(** The state a call leaves behind, when it ends. *)
Definition final {A} (o : outcome MState A) : option MState :=
  match o with
  | Ret _ s => Some s
  | Raise _ s => Some s
  | Hang => None
  end.

(** What may happen to the world between two calls on a handle: children
    that exist may end (never restart), new ones may appear. *)
Definition env_step (w w' : World) : Prop :=
  w_next_pid w <= w_next_pid w' /\
  forall q, q < w_next_pid w -> running w q = false -> running w' q = false.

Inductive reachable : MState -> Prop :=
| reach_init name w : reachable (mkMState (Module_init name) w)
| reach_call c s s' : reachable s -> final (run c s) = Some s' -> reachable s'
| reach_env s w' : reachable s -> env_step (world s) w' ->
                   reachable (mkMState (self s) w').

(** The invariant of the reachable states. *)
Definition started_has_process (h : Module) : Prop :=
  started h = true -> _process h <> None.

Definition process_is_started (h : Module) : Prop :=
  started h = false -> _process h = None.

(** The pid of a Popen object has been handed out, and a cached exit
    status means that the child has ended. *)
Definition cache_sound (w : World) (p : Popen) : Prop :=
  pid p < w_next_pid w /\
  (returncode p <> None -> running w (pid p) = false).

Definition handle_ok (s : MState) : Prop :=
  started_has_process (self s) /\
  process_is_started (self s) /\
  (forall p, _process (self s) = Some p ->
             cache_sound (world s) p /\ stderr_of p = None) /\
  (forall p, _last_process (self s) = Some p ->
             returncode p <> None /\ stderr_of p = None).

(** A property of the state in which a call ends. *)
Definition ends_in {A} (o : outcome MState A) (P : MState -> Prop) : Prop :=
  match o with
  | Ret _ s => P s
  | Raise _ s => P s
  | Hang => True
  end.

Definition preserves {A} (c : M MState A) : Prop :=
  forall s, handle_ok s -> ends_in (c s) handle_ok.

(** A library call that hands out no pid and starts or ends no child. *)
Definition world_stable {A} (c : M World A) : Prop :=
  forall w,
    match c w with
    | Ret _ w' | Raise _ w' =>
        w_next_pid w' = w_next_pid w /\ forall q, running w' q = running w q
    | Hang => True
    end.

(** ** Concrete states used as examples *)

Definition w0 : World := Posix.world ["/opt/aw/aw-server"] [].

Definition fresh : MState := mkMState (Module_init "aw-server") w0.

(** The state a computation ends in, or the given state when it blocks. *)
Definition exec {A} (c : M MState A) (s : MState) : MState :=
  match c s with
  | Ret _ s' => s'
  | Raise _ s' => s'
  | Hang => s
  end.

Definition run_started : MState := Eval vm_compute in exec (start false) fresh.
Definition run_stopped : MState := Eval vm_compute in exec stop run_started.
Definition run_crashed : MState :=
  mkMState (self run_started) (crash 101 1 (world run_started)).

(** ** aw_core.timeperiod *)

(** A [datetime] is a count of microseconds on one time line (all naive, or
    all aware), a [timedelta] a difference of two such counts. *)
Module TimePeriod.

Record t : Type := mk { start : Z; end_ : Z }.

Definition duration (self : t) : Z := (end_ self - start self)%Z.

(** [self.start <= other.start and other.end <= self.end]. *)
Definition contains (self other : t) : bool :=
  (start self <=? start other)%Z && (end_ other <=? end_ self)%Z.

Definition intersection (self other : t) : option t :=
  if contains self other then Some other
  else if (start self <=? start other)%Z && (start other <? end_ self)%Z
  then Some (mk (start other) (end_ self))
  else if (start self <? end_ other)%Z && (end_ other <=? end_ self)%Z
  then Some (mk (start self) (end_ other))
  else if contains other self then Some self
  else None.

(** [bool(self.intersection(other))]: a TimePeriod object is true, None is
    false. *)
Definition overlaps (self other : t) : bool :=
  match intersection self other with Some _ => true | None => false end.

End TimePeriod.

(** ** The self-test of manager.py *)

(** The body of the loop under [if __name__ == "__main__"]; [sleep] is
    what [sleep(2)] lets happen to the world. *)
Definition main_body (sleep : M World unit) : M MState unit :=
  start false ;;
  liftW sleep ;;
  alive <- is_alive ;;
  (if alive then ret tt else raise AssertionError) ;;
  stop.

(** [for module in modules.values(): body]. *)
Fixpoint for_values (body : M MState unit) (d : registry) (w : World)
  : outcome RState unit :=
  match d with
  | [] => Ret tt (mkRState [] w)
  | (k, x) :: rest =>
      match body (mkMState x w) with
      | Ret _ s =>
          match for_values body rest (world s) with
          | Ret u r => Ret u (mkRState ((k, self s) :: handles r) (rworld r))
          | Raise e r => Raise e (mkRState ((k, self s) :: handles r) (rworld r))
          | Hang => Hang
          end
      | Raise e s => Raise e (mkRState ((k, self s) :: rest) (world s))
      | Hang => Hang
      end
  end.

Definition main (sleep : M World unit) : M RState unit :=
  fun r => for_values (main_body sleep) (handles r) (rworld r).

(** ** Vocabulary of the further properties *)

(** The handle and the world as one visit of [get_unexpected_stops]
    leaves them. *)
Definition visit_handle (w : World) (h : Module) : Module :=
  if started h then
    match _process h with
    | Some p => set_process (Some (polled w p)) h
    | None => h
    end
  else h.

Definition visit_world (w : World) (h : Module) : World :=
  if started h then
    match _process h with
    | Some p => after_poll w p
    | None => w
    end
  else w.

Fixpoint visit_all (d : registry) (w : World) : RState :=
  match d with
  | [] => mkRState [] w
  | (k, h) :: rest =>
      let r := visit_all rest (visit_world w h) in
      mkRState ((k, visit_handle w h) :: handles r) (rworld r)
  end.

(** A handle whose process has ended for good: stopped by [stop]. *)
Definition stopped (h : Module) : Prop :=
  started h = false /\ _process h = None /\
  exists p, _last_process h = Some p /\ returncode p <> None.

(** * Properties *)

(** ** The world under the library calls *)

Lemma status_set_trace t w q : status (set_trace t w) q = status w q.
Proof. reflexivity. Qed.

Lemma status_set_status_same q st w : status (set_status q st w) q = st.
Proof. unfold status, set_status, upd; cbn. now rewrite Nat.eqb_refl. Qed.

Lemma status_set_status_other q q' st w :
  q' <> q -> status (set_status q st w) q' = status w q'.
Proof.
  intros Hne. unfold status, set_status, upd; cbn.
  apply Nat.eqb_neq in Hne. now rewrite Hne.
Qed.

(** Collecting an exit status never changes which children run. *)
Lemma running_reaped w p q : running (reaped w p) q = running w q.
Proof.
  unfold reaped. destruct (returncode p); [reflexivity|].
  destruct (status w (pid p)) eqn:Hst; try reflexivity.
  unfold running. destruct (Nat.eq_dec q (pid p)) as [->|Hne].
  - now rewrite status_set_status_same, Hst.
  - now rewrite status_set_status_other.
Qed.

Lemma running_after_poll w p q : running (after_poll w p) q = running w q.
Proof. unfold after_poll. now rewrite running_reaped. Qed.

Lemma w_trace_reaped w p : w_trace (reaped w p) = w_trace w.
Proof.
  unfold reaped. destruct (returncode p); [reflexivity|].
  now destruct (status w (pid p)).
Qed.

Lemma w_trace_after_poll w p :
  w_trace (after_poll w p) = Poll (pid p) :: w_trace w.
Proof. unfold after_poll. now rewrite w_trace_reaped. Qed.

Lemma w_next_pid_after_poll w p : w_next_pid (after_poll w p) = w_next_pid w.
Proof.
  unfold after_poll, reaped. destruct (returncode p); [reflexivity|].
  rewrite status_set_trace. now destruct (status w (pid p)).
Qed.

Lemma pid_polled w p : pid (polled w p) = pid p.
Proof.
  unfold polled. destruct (returncode p); [reflexivity|].
  now destruct (status w (pid p)).
Qed.

Lemma stderr_of_polled w p : stderr_of (polled w p) = stderr_of p.
Proof.
  unfold polled. destruct (returncode p); [reflexivity|].
  now destruct (status w (pid p)).
Qed.

(** After a poll the exit status is cached exactly when the child does
    not run. *)
Lemma returncode_polled w p :
  returncode (polled w p) = None <->
  returncode p = None /\ running w (pid p) = true.
Proof.
  unfold polled, running. destruct (returncode p) eqn:Hrc.
  - rewrite Hrc. split; [discriminate | intros [H _]; discriminate].
  - destruct (status w (pid p)); cbn; rewrite ?Hrc;
      split; try discriminate; try (intros [_ H]; discriminate); auto.
Qed.

Lemma Popen_poll_eq p w :
  Popen_poll p w = Ret (polled w p) (after_poll w p).
Proof.
  unfold Popen_poll, after_poll, polled, reaped, bind, emit, modify, get, ret.
  destruct (returncode p); [reflexivity|].
  change (status (set_trace (Poll (pid p) :: w_trace w) w) (pid p))
    with (status w (pid p)).
  now destruct (status w (pid p)).
Qed.

(** ** is_alive *)

Lemma is_alive_eq h w :
  is_alive (mkMState h w) =
  match _process h with
  | None => Ret false (mkMState h w)
  | Some p => Ret (alive_now w h)
                  (mkMState (set_process (Some (polled w p)) h) (after_poll w p))
  end.
Proof.
  unfold is_alive, alive_now, bind, getattr, setattr, liftW, ret.
  cbn [self world].
  destruct (_process h) as [p|]; [|reflexivity].
  rewrite Popen_poll_eq.
  f_equal. unfold polled, running. cbn [world].
  destruct (returncode p) eqn:Hrc; [now rewrite Hrc|].
  destruct (status w (pid p)); cbn; now rewrite ?Hrc.
Qed.

(** A handle whose current process has a cached exit status, or that has
    no current process, is not alive whatever the world says. *)
Lemma is_alive_cached h w :
  match _process h with
  | None => True
  | Some p => returncode p <> None
  end ->
  is_alive (mkMState h w) =
  Ret false (mkMState h match _process h with
                        | None => w
                        | Some p => set_trace (Poll (pid p) :: w_trace w) w
                        end).
Proof.
  intros Hc. rewrite is_alive_eq. unfold alive_now.
  destruct h as [n st [p|] last lg]; cbn in *; [|reflexivity].
  unfold polled, after_poll, reaped, set_process; cbn.
  destruct (returncode p); [reflexivity | contradiction].
Qed.

(** ** The executable resolver *)

(** C5: [_locate_executable] returns, as a one-element command, the path
    of [name] in the install directory if that is a file, otherwise the
    path in the parent directory if that is a file, otherwise the bare
    name; it always returns, raises nothing and changes nothing. *)
Theorem locate_executable_resolves name w :
  _locate_executable name w = Ret [resolve w name] w.
Proof.
  unfold _locate_executable, resolve, parent_dir, install_dir, bind, get, ret.
  cbn [map for_exec_paths].
  destruct (isfile (w_path w) _); [reflexivity|].
  now destruct (isfile (w_path w) _).
Qed.

(** The three outcomes on a POSIX file system. *)
Example resolve_install_dir :
  resolve (Posix.world ["/opt/aw/aw_qt/aw-server"; "/opt/aw/aw-server"] []) "aw-server"
  = "/opt/aw/aw_qt/aw-server".
Proof. reflexivity. Qed.

Example resolve_parent_dir :
  resolve (Posix.world ["/opt/aw/aw-server"] []) "aw-server" = "/opt/aw/aw-server".
Proof. reflexivity. Qed.

Example resolve_bare_name :
  resolve (Posix.world [] []) "aw-server" = "aw-server".
Proof. reflexivity. Qed.

(** ** start *)

Ltac open_state h w :=
  destruct h as [n st cur last lg];
  destruct w as [win os file lau sp sg sl np procs pipe tr].

Ltac unfold_monad :=
  unfold bind, getattr, setattr, logger, print, liftW, emit, modify, get, ret,
         raise in *.

(** C6: [start(testing)] hands Popen the resolved command followed by
    [--testing] exactly when [testing] is true, and nothing else. When the
    launch succeeds it records the new process and then sets [started];
    when it fails the error reaches the caller and the handle is as it
    was, nothing having been spawned. It never blocks. *)
Theorem start_spawns_or_raises testing h w :
  match start testing (mkMState h w) with
  | Ret _ s' =>
      (exists on_term fate,
         w_launch w (start_argv w h testing) = LaunchOk on_term fate) /\
      self s' = mkModule (name h) true (Some (mkPopen (w_next_pid w) None None))
                         (_last_process h) (_log h) /\
      hd_error (w_trace (world s')) =
        Some (Spawn (start_argv w h testing) (w_next_pid w)) /\
      spawns (w_trace (world s')) = S (spawns (w_trace w)) /\
      status (world s') (w_next_pid w) = Running
  | Raise e s' =>
      self s' = h /\
      spawns (w_trace (world s')) = spawns (w_trace w) /\
      (w_launch w (start_argv w h testing) = LaunchFail e \/
       (w_windows w = false /\ w_session_leader w = true /\ e = PermissionError))
  | Hang => False
  end.
Proof.
  open_state h w. unfold start, os_setpgrp. unfold_monad.
  cbn -[_locate_executable Popen_init append].
  assert (Hup : forall A (f : nat -> A) k v, upd f k v k = v)
    by (intros; unfold upd; now rewrite Nat.eqb_refl).
  destruct win, sl; cbn -[_locate_executable Popen_init append];
    try (repeat split; auto; fail);
    rewrite locate_executable_resolves;
    cbn -[_locate_executable Popen_init append resolve];
    unfold Popen_init, start_argv; unfold_monad;
    destruct testing; cbn -[append resolve];
    match goal with |- context [lau ?a] => destruct (lau a) eqn:Hl end;
    cbn -[append resolve];
    repeat split; eauto; unfold status; cbn; now rewrite Hup.
Qed.

(** ** stop *)

Lemma upd_same {A} (f : nat -> A) k v : upd f k v k = v.
Proof. unfold upd. now rewrite Nat.eqb_refl. Qed.

(** On a handle that is not started, [stop] only logs a warning. *)
Lemma stop_not_started_eq h w :
  started h = false ->
  stop (mkMState h w) =
  Ret tt (mkMState h
    (set_trace (Log WARNING ("Tried to stop module " ++ name h ++
                             ", but it hasn't been started") :: w_trace w) w)).
Proof.
  intros Hst. unfold stop. unfold_monad. cbn [self world]. now rewrite Hst.
Qed.

(** The case analysis of [stop] on a started handle: no current process,
    a cached exit status, or what the process table says. *)
Ltac stop_cases cur :=
  unfold stop, process_terminate, process_wait, is_alive, Popen_poll,
    Popen_terminate, Popen_wait, collect, alive_now, running, exit_on_stop,
    status, set_status, upd in *;
  unfold_monad;
  cbn -[append Nat.eqb] in *; subst;
  destruct cur as [[pd rc se]|]; [destruct rc as [c|]|];
  cbn -[append Nat.eqb] in *;
  try match goal with
  | procs : nat -> proc |- context [p_status (?f ?x)] =>
      let Hp := fresh "Hp" in
      destruct (f x) as [g ps ot fa] eqn:Hp;
      destruct ps; [| destruct ot as [c|]; [|destruct fa as [c|]] | |]
  end;
  cbn -[append Nat.eqb] in *;
  repeat (rewrite ?Nat.eqb_refl;
          try match goal with Hp : _ = mkProc _ _ _ _ |- _ => rewrite ?Hp end;
          progress cbn -[append Nat.eqb] in * ).

(** C1: on a started handle [stop] never raises, so its assertion never
    fails. When it returns, [started] is false, the current process has
    moved to [_last_process] with its exit status recorded, [_process] is
    empty and [is_alive] answers false in any world. A process that was
    alive has been sent SIGTERM and waited on and is gone from the process
    table; for one that had already ended, only the warning is logged.
    [stop] blocks only on a live process that neither ends on SIGTERM nor
    on its own. *)
Theorem stop_started_spec h w :
  started h = true ->
  match stop (mkMState h w) with
  | Ret _ s' =>
      started (self s') = false /\ _process (self s') = None /\
      name (self s') = name h /\ _log (self s') = _log h /\
      match _process h, _last_process (self s') with
      | Some p, Some p' =>
          pid p' = pid p /\ stderr_of p' = stderr_of p /\ returncode p' <> None
      | None, None => True
      | _, _ => False
      end /\
      (forall w', is_alive (mkMState (self s') w') =
                  Ret false (mkMState (self s') w')) /\
      match _process h with
      | Some p =>
          if alive_now w h then
            w_trace (world s') =
              Poll (pid p)
              :: Log INFO ("Stopped module " ++ name h)
              :: Wait (pid p)
              :: Log DEBUG ("Waiting for module " ++ name h ++ " to shut down")
              :: Terminate (pid p)
              :: Log DEBUG ("Stopping module " ++ name h)
              :: Poll (pid p) :: w_trace w /\
            status (world s') (pid p) = Reaped /\
            option_map returncode (_last_process (self s')) =
              Some (exit_on_stop (w_procs w (pid p)))
          else
            w_trace (world s') =
              Poll (pid p)
              :: Log WARNING ("Tried to stop module " ++ name h ++
                              ", but it wasn't running")
              :: Poll (pid p) :: w_trace w
      | None =>
          w_trace (world s') =
            Log WARNING ("Tried to stop module " ++ name h ++
                         ", but it wasn't running") :: w_trace w
      end
  | Raise _ _ => False
  | Hang =>
      alive_now w h = true /\
      exists p, _process h = Some p /\ exit_on_stop (w_procs w (pid p)) = None
  end.
Proof.
  intros Hst. open_state h w. stop_cases cur;
    repeat split; eauto; try congruence.
  eexists; split; [reflexivity | cbn; now rewrite Hp].
Qed.

Lemma stop_started_spec_witness :
  started (self run_started) = true /\
  alive_now (world run_started) (self run_started) = true /\
  started (self run_stopped) = false /\
  _process (self run_stopped) = None /\
  _last_process (self run_stopped) = Some (mkPopen 101 (Some (-15)%Z) None).
Proof.
  pose proof (stop_started_spec (self run_started) (world run_started) eq_refl) as H.
  assert (E : stop (mkMState (self run_started) (world run_started)) =
              Ret tt run_stopped) by (vm_compute; reflexivity).
  rewrite E in H. destruct H as (H1 & H2 & _).
  split; [reflexivity|]. split; [reflexivity|].
  split; [exact H1|]. split; [exact H2 | reflexivity].
Defined.

(** ** The invariant of the reachable states *)

Lemma handle_ok_world h w w' :
  handle_ok (mkMState h w) ->
  w_next_pid w' = w_next_pid w ->
  (forall q, running w' q = running w q) ->
  handle_ok (mkMState h w').
Proof.
  intros (Ha & Hb & Hc & Hd) Hn Hr.
  split; [exact Ha|]. split; [exact Hb|]. split; [|exact Hd].
  cbn in *. intros p Hp. destruct (Hc p Hp) as [[Hlt Hrc] Hse].
  repeat split; auto.
  - now rewrite Hn.
  - intros Hcached. rewrite Hr. now apply Hrc.
Qed.

Lemma preserves_ret {A} (a : A) : preserves (ret a).
Proof. intros s Hs. exact Hs. Qed.

Lemma preserves_raise {A} e : preserves (@raise MState A e).
Proof. intros s Hs. exact Hs. Qed.

Lemma preserves_getattr {A} (f : Module -> A) : preserves (getattr f).
Proof. intros s Hs. exact Hs. Qed.

Lemma preserves_bind {A B} (c : M MState A) (k : A -> M MState B) :
  preserves c -> (forall a, preserves (k a)) -> preserves (bind c k).
Proof.
  intros Hc Hk s Hs. unfold bind. specialize (Hc s Hs).
  destruct (c s) as [a s'| |]; cbn in *; auto.
  now apply Hk.
Qed.

Lemma preserves_liftW {A} (c : M World A) :
  world_stable c -> preserves (liftW c).
Proof.
  intros Hc [h w] Hs. unfold liftW; cbn. specialize (Hc w).
  destruct (c w) as [a w'|e w'|]; cbn; auto;
    destruct Hc as [Hn Hr]; now apply handle_ok_world with w.
Qed.

Lemma world_stable_emit e : world_stable (emit e).
Proof. intros w. cbn. now split. Qed.

Lemma world_stable_stderr_read p : world_stable (Popen_stderr_read p).
Proof.
  intros w. destruct p as [[pd rc [fd|]]|]; cbn; now split.
Qed.

Lemma preserves_set_log l : preserves (setattr (set_log l)).
Proof. intros [h w] Hs. exact Hs. Qed.

Lemma running_false_iff w q : running w q = false <-> status w q <> Running.
Proof. unfold running. destruct (status w q); split; congruence. Qed.

Lemma preserves_is_alive : preserves is_alive.
Proof.
  intros [h w] Hs. rewrite is_alive_eq.
  destruct (_process h) as [p|] eqn:Hp; cbn; [|exact Hs].
  destruct Hs as (Ha & Hb & Hc & Hd). cbn in *.
  destruct (Hc p Hp) as [[Hlt Hrc] Hse].
  split; [|split; [|split]]; cbn.
  - intros _. discriminate.
  - intros Hst. specialize (Hb Hst). congruence.
  - intros q Hq. inversion Hq; subst q. split; [split|].
    + rewrite pid_polled, w_next_pid_after_poll. exact Hlt.
    + intros Hcached. rewrite pid_polled, running_after_poll.
      destruct (returncode p) eqn:E; [apply Hrc; congruence|].
      destruct (running w (pid p)) eqn:Er; [|reflexivity].
      exfalso. apply Hcached. apply returncode_polled. now split.
    + now rewrite stderr_of_polled.
  - exact Hd.
Qed.

Lemma preserves_stderr : preserves stderr.
Proof.
  unfold stderr.
  repeat first
    [ apply preserves_is_alive
    | apply preserves_getattr
    | apply preserves_ret
    | apply preserves_set_log
    | apply preserves_liftW; first [apply world_stable_emit | apply world_stable_stderr_read]
    | apply preserves_bind; [| intros ?]
    | match goal with |- preserves (if ?b then _ else _) => destruct b end ].
Qed.

Lemma preserves_start testing : preserves (start testing).
Proof.
  intros [h w] Hs. open_state h w. unfold start, os_setpgrp. unfold_monad.
  cbn -[_locate_executable Popen_init append].
  destruct win, sl; cbn -[_locate_executable Popen_init append];
    try (now apply handle_ok_world with (2 := eq_refl));
    rewrite locate_executable_resolves;
    cbn -[_locate_executable Popen_init append resolve];
    unfold Popen_init; unfold_monad;
    destruct testing; cbn -[append resolve];
    match goal with |- context [lau ?a] => destruct (lau a) eqn:Hl end;
    cbn -[append resolve];
    try (now apply handle_ok_world with (2 := eq_refl));
    destruct Hs as (Ha & Hb & Hc & Hd).
  all: split; [intros _; discriminate|].
  all: split; [intros Hst; discriminate Hst|].
  all: split; [|exact Hd].
  all: intros q Hq; inversion Hq; unfold cache_sound; cbn -[append resolve].
  all: repeat split; try lia; intros Hrc; now elim Hrc.
Qed.

Lemma preserves_stop : preserves stop.
Proof.
  intros [h w] Hs. destruct (started h) eqn:Hst.
  - destruct Hs as (Ha & Hb & Hc & Hd). open_state h w.
    cbn in Hst; subst st. cbn [self world _process] in *.
    assert (Hse : forall p, cur = Some p -> stderr_of p = None)
      by (intros p Hp; apply (Hc p Hp)).
    assert (Hcur : cur <> None) by (now apply Ha).
    clear Ha Hb Hc Hd. unfold ends_in, handle_ok.
    stop_cases cur.
    all: try exact I.
    all: try (now elim Hcur).
    all: specialize (Hse _ eq_refl); cbn in Hse; subst se.
    all: split; [intros Hs; discriminate Hs|].
    all: split; [intros _; reflexivity|].
    all: split; [intros q Hq; discriminate Hq|].
    all: intros q Hq; inversion Hq; split; [discriminate | reflexivity].
  - rewrite stop_not_started_eq by exact Hst. cbn.
    now apply handle_ok_world with w.
Qed.

Lemma preserves_toggle testing : preserves (toggle testing).
Proof.
  intros s Hs. unfold toggle, bind, getattr.
  destruct (started (self s)); [now apply preserves_stop | now apply preserves_start].
Qed.

Lemma preserves_run c : preserves (run c).
Proof.
  destruct c; cbn [run].
  - apply preserves_start.
  - apply preserves_stop.
  - apply preserves_toggle.
  - apply preserves_bind; [apply preserves_is_alive | intros; apply preserves_ret].
  - apply preserves_bind; [apply preserves_stderr | intros; apply preserves_ret].
Qed.

Lemma handle_ok_env s w' :
  handle_ok s -> env_step (world s) w' -> handle_ok (mkMState (self s) w').
Proof.
  intros (Ha & Hb & Hc & Hd) [Hn Hr].
  split; [exact Ha|]. split; [exact Hb|]. split; [|exact Hd].
  cbn. intros p Hp. destruct (Hc p Hp) as [[Hlt Hrc] Hse].
  split; [split|exact Hse]; [lia|].
  intros Hcached. apply Hr; auto.
Qed.

Lemma handle_ok_init name w : handle_ok (mkMState (Module_init name) w).
Proof. repeat split; cbn; intros; discriminate. Qed.

(** Every reachable state satisfies the invariant. *)
Lemma reachable_ok s : reachable s -> handle_ok s.
Proof.
  induction 1 as [name w | c s s' _ IH Hrun | s w' _ IH Henv].
  - apply handle_ok_init.
  - pose proof (preserves_run c IH) as Hp. unfold final in Hrun.
    destruct (run c s); cbn in Hp; congruence.
  - now apply handle_ok_env.
Qed.

(** ** What start and stop leave behind *)

Lemma start_ret testing h w u s' :
  start testing (mkMState h w) = Ret u s' ->
  self s' = mkModule (name h) true (Some (mkPopen (w_next_pid w) None None))
                     (_last_process h) (_log h) /\
  w_pid (world s') = w_pid w /\
  w_pgid (world s') = (if w_windows w then w_pgid w else w_pid w) /\
  p_pgid (w_procs (world s') (w_next_pid w)) = w_pgid (world s') /\
  w_trace (world s') =
    Spawn (start_argv w h testing) (w_next_pid w)
    :: (if w_windows w then [] else [Setpgrp])
    ++ Log INFO ("Starting module " ++ name h) :: w_trace w.
Proof.
  open_state h w. unfold start, os_setpgrp. unfold_monad.
  cbn -[_locate_executable Popen_init append].
  destruct win, sl; cbn -[_locate_executable Popen_init append];
    try discriminate;
    rewrite locate_executable_resolves;
    cbn -[_locate_executable Popen_init append resolve];
    unfold Popen_init, start_argv; unfold_monad;
    destruct testing; cbn -[append resolve];
    match goal with |- context [lau ?a] => destruct (lau a) eqn:Hl end;
    cbn -[append resolve]; try discriminate;
    intros Heq; inversion Heq; subst; cbn -[append resolve];
    rewrite upd_same; repeat split.
Qed.

Lemma start_raise testing h w e s' :
  start testing (mkMState h w) = Raise e s' -> self s' = h.
Proof.
  open_state h w. unfold start, os_setpgrp. unfold_monad.
  cbn -[_locate_executable Popen_init append].
  destruct win, sl; cbn -[_locate_executable Popen_init append];
    try (intros Heq; inversion Heq; reflexivity);
    rewrite locate_executable_resolves;
    cbn -[_locate_executable Popen_init append resolve];
    unfold Popen_init; unfold_monad;
    destruct testing; cbn -[append resolve];
    match goal with |- context [lau ?a] => destruct (lau a) eqn:Hl end;
    cbn -[append resolve];
    intros Heq; inversion Heq; reflexivity.
Qed.

Lemma stop_ret h w u s' :
  stop (mkMState h w) = Ret u s' ->
  started (self s') = false /\
  (started h = true -> _process (self s') = None).
Proof.
  destruct (started h) eqn:Hst.
  - open_state h w. cbn in Hst; subst st.
    stop_cases cur; intros Heq; inversion Heq; split; reflexivity.
  - rewrite stop_not_started_eq by exact Hst.
    intros Heq; inversion Heq; subst; cbn. split; [exact Hst | discriminate].
Qed.

Lemma stop_never_raises h w e s' : stop (mkMState h w) <> Raise e s'.
Proof.
  destruct (started h) eqn:Hst.
  - open_state h w. cbn in Hst; subst st.
    stop_cases cur; discriminate.
  - rewrite stop_not_started_eq by exact Hst. discriminate.
Qed.

(** ** The lifecycle claims *)

(** C10: [started == true] implies that the handle has a current process.
    This holds for a new handle and is kept by every [start], [stop] and
    [toggle], whether the call returns or raises, in any world; hence in
    every reachable state a handle without a current process is not
    started. *)
Theorem started_implies_process_invariant :
  (forall name, started_has_process (Module_init name)) /\
  (forall h w,
     started_has_process h ->
     (forall t, ends_in (start t (mkMState h w))
                        (fun s' => started_has_process (self s'))) /\
     ends_in (stop (mkMState h w)) (fun s' => started_has_process (self s')) /\
     (forall t, ends_in (toggle t (mkMState h w))
                        (fun s' => started_has_process (self s')))) /\
  (forall s, reachable s ->
     started_has_process (self s) /\
     (_process (self s) = None -> started (self s) = false)).
Proof.
  assert (Hstart : forall h w t, started_has_process h ->
            ends_in (start t (mkMState h w))
                    (fun s' => started_has_process (self s'))).
  { intros h w t Hh. destruct (start t (mkMState h w)) as [u s'|e s'|] eqn:E; cbn; auto.
    - apply start_ret in E. destruct E as [-> _]. intros _. discriminate.
    - apply start_raise in E. now rewrite E. }
  assert (Hstop : forall h w, started_has_process h ->
            ends_in (stop (mkMState h w))
                    (fun s' => started_has_process (self s'))).
  { intros h w Hh. destruct (stop (mkMState h w)) as [u s'|e s'|] eqn:E; cbn; auto.
    - apply stop_ret in E. destruct E as [E _]. intros Hs. congruence.
    - now apply stop_never_raises in E. }
  split; [|split].
  - intros name Hs. discriminate Hs.
  - intros h w Hh. split; [|split]; auto.
    intros t. unfold toggle, bind, getattr. cbn [self].
    destruct (started h); auto.
  - intros s Hs. destruct (reachable_ok Hs) as (Ha & _). split; [exact Ha|].
    intros Hnone. destruct (started (self s)) eqn:Hst; [|reflexivity].
    now elim (Ha Hst).
Qed.

Lemma started_implies_process_invariant_witness :
  started_has_process (self run_started) /\
  reachable run_started /\
  ends_in (stop run_started) (fun s' => started_has_process (self s')) /\
  (_process (self fresh) = None -> started (self fresh) = false).
Proof.
  assert (Hh : started_has_process (self run_started))
    by (intros _; discriminate).
  assert (Hr : reachable run_started)
    by (apply reach_call with (c := CallStart false) (s := fresh);
        [apply reach_init | reflexivity]).
  destruct started_implies_process_invariant as (_ & Hstep & Hreach).
  split; [exact Hh|]. split; [exact Hr|]. split.
  - exact (proj1 (proj2 (Hstep (self run_started) (world run_started) Hh))).
  - exact (proj2 (Hreach fresh (reach_init _ _))).
Defined.

(** C7: on a handle that is not started, in particular on one never
    started, [stop] returns after logging one warning; the handle is left
    as it was, field by field, and [is_alive] answers false before and
    after. *)
Theorem stop_not_started_noop s :
  reachable s ->
  started (self s) = false ->
  let s' := mkMState (self s)
              (set_trace (Log WARNING ("Tried to stop module " ++ name (self s) ++
                                       ", but it hasn't been started")
                          :: w_trace (world s)) (world s)) in
  stop s = Ret tt s' /\
  is_alive s = Ret false s /\
  is_alive s' = Ret false s'.
Proof.
  intros Hr Hst. destruct (reachable_ok Hr) as (_ & Hb & _).
  specialize (Hb Hst). destruct s as [h w]. cbn [self world] in *.
  split; [now apply stop_not_started_eq|].
  rewrite !is_alive_eq, Hb. now split.
Qed.

Lemma stop_not_started_noop_witness :
  reachable fresh /\
  started (self fresh) = false /\
  exec stop fresh =
    mkMState (Module_init "aw-server")
      (set_trace [Log WARNING "Tried to stop module aw-server, but it hasn't been started"]
                 w0).
Proof.
  split; [apply reach_init|]. split; [reflexivity|].
  unfold exec, fresh.
  now rewrite (proj1 (stop_not_started_noop (reach_init "aw-server" w0) eq_refl)).
Defined.

(** C3: [is_alive] always returns. Without a recorded process it answers
    false and changes nothing. Otherwise it polls once and answers true
    exactly when the operating system has the process running; the handle
    changes at most in the cached exit status, no child starts or ends,
    and a second call made right after gives the same answer. *)
Theorem is_alive_spec s :
  reachable s ->
  match _process (self s) with
  | None => is_alive s = Ret false s
  | Some p =>
      exists s' s'',
        is_alive s = Ret (running (world s) (pid p)) s' /\
        same_but_returncode (self s) (self s') /\
        w_trace (world s') = Poll (pid p) :: w_trace (world s) /\
        (forall q, running (world s') q = running (world s) q) /\
        is_alive s' = Ret (running (world s) (pid p)) s''
  end.
Proof.
  intros Hr. destruct (reachable_ok Hr) as (_ & _ & Hc & _).
  destruct s as [h w]. cbn [self world] in *.
  rewrite is_alive_eq.
  destruct (_process h) as [p|] eqn:Hp; [|reflexivity].
  destruct (Hc p eq_refl) as [[_ Hrc] _].
  assert (Halive : alive_now w h = running w (pid p)).
  { unfold alive_now. rewrite Hp. destruct (returncode p) eqn:E; [|reflexivity].
    symmetry. apply Hrc. discriminate. }
  eexists. eexists. split; [now rewrite Halive|]. cbn [self world].
  split; [|split; [|split]].
  - unfold same_but_returncode. cbn. rewrite Hp.
    now rewrite pid_polled, stderr_of_polled.
  - apply w_trace_after_poll.
  - intros q. apply running_after_poll.
  - rewrite is_alive_eq. cbn [_process set_process]. f_equal.
    unfold alive_now. cbn [_process set_process].
    rewrite pid_polled, running_after_poll, <- Halive.
    unfold alive_now, polled, running. rewrite Hp.
    destruct (returncode p) eqn:Ep; [now rewrite Ep|].
    destruct (status w (pid p)); cbn; now rewrite ?Ep.
Qed.

Lemma is_alive_spec_witness :
  reachable run_started /\
  exists s', is_alive run_started = Ret true s'.
Proof.
  assert (Hr : reachable run_started)
    by (apply reach_call with (c := CallStart false) (s := fresh);
        [apply reach_init | reflexivity]).
  split; [exact Hr|].
  destruct (is_alive_spec Hr) as (s' & _ & H & _).
  exists s'. exact H.
Defined.

(** C8: [toggle] is [stop] on a started handle and [start] otherwise; two
    toggles that both return bring [started] back to its first value,
    whatever happened to the world in between. *)
Theorem toggle_twice_restores_started :
  (forall t s, toggle t s = if started (self s) then stop s else start t s) /\
  (forall t1 t2 h w u1 h1 w1 w1' u2 s2,
     toggle t1 (mkMState h w) = Ret u1 (mkMState h1 w1) ->
     toggle t2 (mkMState h1 w1') = Ret u2 s2 ->
     started (self s2) = started h).
Proof.
  assert (Heq : forall t s,
            toggle t s = if started (self s) then stop s else start t s)
    by (intros t s; unfold toggle, bind, getattr; now destruct (started (self s))).
  split; [exact Heq|].
  intros t1 t2 h w u1 h1 w1 w1' u2 s2. rewrite !Heq. cbn [self].
  destruct (started h) eqn:Hst.
  - intros H1 H2. apply stop_ret in H1. cbn [self] in H1.
    destruct H1 as [H1 _]. rewrite H1 in H2.
    apply start_ret in H2. destruct H2 as [-> _]. reflexivity.
  - intros H1 H2. apply start_ret in H1. cbn [self] in H1.
    destruct H1 as [-> _]. cbn [started] in H2.
    apply stop_ret in H2. now destruct H2 as [-> _].
Qed.

Lemma toggle_twice_restores_started_witness :
  toggle false fresh = Ret tt run_started /\
  toggle true run_started = Ret tt run_stopped /\
  started (self run_stopped) = started (self fresh).
Proof.
  assert (H1 : toggle false (mkMState (self fresh) (world fresh)) =
               Ret tt (mkMState (self run_started) (world run_started)))
    by (vm_compute; reflexivity).
  assert (H2 : toggle true (mkMState (self run_started) (world run_started)) =
               Ret tt run_stopped)
    by (vm_compute; reflexivity).
  split; [exact H1|]. split; [exact H2|].
  exact (proj2 toggle_twice_restores_started _ _ _ _ _ _ _ _ _ _ H1 H2).
Defined.

(** ** Process groups *)




(** ** The registry query *)

Lemma alive_now_ext w w' h :
  (forall q, running w' q = running w q) -> alive_now w' h = alive_now w h.
Proof.
  intros Hr. unfold alive_now. destruct (_process h) as [p|]; [|reflexivity].
  destruct (returncode p); [reflexivity | apply Hr].
Qed.

Lemma same_but_returncode_refl h : same_but_returncode h h.
Proof.
  unfold same_but_returncode. repeat split. now destruct (_process h).
Qed.

(** The predicate of the filter on one handle: the poll is made only on a
    started handle. *)
Lemma unexpected_eq h w :
  unexpected (mkMState h w) =
  if started h then
    match _process h with
    | None => Ret true (mkMState h w)
    | Some p => Ret (negb (alive_now w h))
                    (mkMState (set_process (Some (polled w p)) h) (after_poll w p))
    end
  else Ret false (mkMState h w).
Proof.
  unfold unexpected, bind, getattr, ret. cbn [self].
  destruct (started h); [|reflexivity].
  rewrite is_alive_eq. now destruct (_process h).
Qed.

Lemma unexpected_step k h w :
  exists h1 w1,
    unexpected (mkMState h w) = Ret (unexpected_now w h) (mkMState h1 w1) /\
    same_but_returncode h h1 /\
    (started h = false -> h1 = h) /\
    unexpected_now w h1 = unexpected_now w h /\
    w_trace w1 = (rev (polls_of [(k, h)]) ++ w_trace w)%list /\
    (forall q, running w1 q = running w q).
Proof.
  rewrite unexpected_eq. unfold unexpected_now, polls_of, alive_now.
  cbn [flat_map snd]. destruct (started h) eqn:Hst; cbn [andb].
  - destruct (_process h) as [p|] eqn:Hp.
    + eexists. eexists. split; [reflexivity|]. split; [|split; [|split; [|split]]].
      * unfold same_but_returncode. cbn. rewrite Hp.
        now rewrite pid_polled, stderr_of_polled.
      * discriminate.
      * cbn. rewrite Hst. cbn [andb]. f_equal.
        unfold polled, running.
        destruct (returncode p) eqn:Ep; [now rewrite Ep|].
        destruct (status w (pid p)) eqn:Es; cbn; now rewrite ?Ep, ?Es.
      * apply w_trace_after_poll.
      * intros q. apply running_after_poll.
    + exists h, w. rewrite Hst, Hp. repeat split; auto.
      apply same_but_returncode_refl.
  - exists h, w. rewrite Hst. repeat split; auto. apply same_but_returncode_refl.
Qed.

Lemma polls_of_cons kh d : polls_of (kh :: d) = (polls_of [kh] ++ polls_of d)%list.
Proof. unfold polls_of. cbn [flat_map]. now rewrite app_nil_r. Qed.

(** C2, as stated, fails: on the registry as it is created no handle is
    started, and the query polls none of its three handles. *)
Lemma get_unexpected_stops_polls_no_fresh_handle :
  get_unexpected_stops (mkRState modules w0) = Ret [] (mkRState modules w0) /\
  List.length modules = 3 /\
  polls (w_trace w0) = 0.
Proof. repeat split. Qed.

(** C2, amended: [get_unexpected_stops] always returns; it returns, in
    registry order, exactly the handles that are started and not alive,
    each as its poll left it. It polls once each started handle that has a
    current process and no other handle, logs nothing, starts and ends no
    child, and changes a handle at most in the cached exit status of its
    current process. *)
Theorem get_unexpected_stops_spec d w :
  exists l d' w',
    get_unexpected_stops (mkRState d w) = Ret l (mkRState d' w') /\
    Forall2 same_but_returncode (filter (unexpected_now w) (map snd d)) l /\
    l = filter (unexpected_now w) (map snd d') /\
    Forall2 (fun kh kh' => fst kh' = fst kh /\
                           same_but_returncode (snd kh) (snd kh') /\
                           (started (snd kh) = false -> snd kh' = snd kh)) d d' /\
    w_trace w' = (rev (polls_of d) ++ w_trace w)%list /\
    (forall q, running w' q = running w q).
Proof.
  unfold get_unexpected_stops. cbn [handles rworld].
  revert w. induction d as [|[k h] d IH]; intros w.
  - exists [], [], w. cbn. repeat split; constructor.
  - destruct (unexpected_step k h w)
      as (h1 & w1 & Hu & Hsame & Hfix & Hnow & Htr & Hrun).
    destruct (IH w1) as (l & d' & w' & Hrest & Hl & Hl' & Hd & Htr' & Hrun').
    cbn [filter_values]. rewrite Hu. cbn [world self]. rewrite Hrest.
    cbn [handles rworld].
    assert (Hext : forall a, unexpected_now w1 a = unexpected_now w a)
      by (intros a; unfold unexpected_now; now rewrite (@alive_now_ext w w1 a Hrun)).
    rewrite (filter_ext _ _ Hext) in Hl, Hl'.
    eexists. eexists. eexists. split; [reflexivity|].
    split; [|split; [|split; [|split]]].
    + cbn [map snd filter].
      destruct (unexpected_now w h); [constructor|]; assumption.
    + cbn [map snd filter]. rewrite Hnow, <- Hl'. reflexivity.
    + constructor; [|exact Hd]. cbn. auto.
    + rewrite polls_of_cons, rev_app_distr, <- app_assoc, <- Htr. exact Htr'.
    + intros q. now rewrite Hrun'.
Qed.

(** ** stderr *)

(** What [stderr] does in a reachable state: the two sentinels are
    returned as documented, and every attempt to read the output of an
    ended process raises, because [start] gave Popen no pipe to read. *)
Lemma stderr_reachable s :
  reachable s ->
  match stderr s with
  | Ret v _ =>
      (alive_now (world s) (self s) = true /\
       v = "Can't fetch output while running") \/
      (_process (self s) = None /\ _last_process (self s) = None /\
       v = "Module not started, no output available")
  | Raise e s' =>
      e = AttributeError /\ alive_now (world s) (self s) = false /\
      _log (self s') = _log (self s) /\
      (_process (self s) <> None \/ _last_process (self s) <> None)
  | Hang => False
  end.
Proof.
  intros Hr. destruct (reachable_ok Hr) as (Ha & Hb & Hc & Hd).
  destruct s as [h w]. open_state h w. cbn [self world] in *.
  unfold started_has_process, process_is_started in *. cbn in Ha, Hb, Hc, Hd.
  unfold stderr, is_alive, Popen_poll, Popen_stderr_read, collect, alive_now,
    running, status, set_status, truthy in *.
  unfold_monad.
  destruct cur as [[pd rc se]|].
  - destruct (Hc _ eq_refl) as [_ Hse]. cbn in Hse. subst se.
    destruct st; [|specialize (Hb eq_refl); discriminate].
    destruct rc as [c|]; cbn -[append Nat.eqb].
    + repeat split; auto; try (left; discriminate).
    + destruct (p_status (procs pd)) eqn:Hp;
        cbn -[append Nat.eqb]; rewrite ?Nat.eqb_refl; cbn -[append Nat.eqb];
        auto; repeat split; auto; try (left; discriminate).
  - destruct st; [now elim (Ha eq_refl)|].
    destruct last as [[pd rc se]|]; cbn -[append Nat.eqb].
    + destruct (Hd _ eq_refl) as [_ Hse]. cbn in Hse. subst se.
      cbn -[append]. repeat split; auto; try (right; discriminate).
    + right. repeat split.
Qed.

(** C4, on the code: once the process of a handle has ended, by [stop] or
    on its own, [stderr] raises AttributeError instead of returning the
    accumulated log. *)
Theorem stderr_raises_on_ended_process :
  (exists s', stderr run_stopped = Raise AttributeError s') /\
  (exists s', stderr run_crashed = Raise AttributeError s').
Proof.
  split; eexists; vm_compute; reflexivity.
Qed.

(** * Further properties *)

(** ** Time periods *)

Ltac tp_cases :=
  unfold TimePeriod.overlaps, TimePeriod.intersection, TimePeriod.contains,
         TimePeriod.duration in *;
  cbn [TimePeriod.start TimePeriod.end_] in *;
  repeat match goal with
  | |- context [(?a <=? ?b)%Z] => destruct (Z.leb_spec a b)
  | |- context [(?a <? ?b)%Z] => destruct (Z.ltb_spec a b)
  | H : context [(?a <=? ?b)%Z] |- _ => destruct (Z.leb_spec a b)
  | H : context [(?a <? ?b)%Z] |- _ => destruct (Z.ltb_spec a b)
  end;
  cbn [andb TimePeriod.start TimePeriod.end_] in *.












(** X7: the intersection of two periods that do not end before they start
    does not end before it starts either, and when neither period contains
    the other it has positive duration. *)
Theorem timeperiod_intersection_wellformed a b r :
  (TimePeriod.start a <= TimePeriod.end_ a)%Z ->
  (TimePeriod.start b <= TimePeriod.end_ b)%Z ->
  TimePeriod.intersection a b = Some r ->
  (0 <= TimePeriod.duration r)%Z /\
  (TimePeriod.contains a b = false -> TimePeriod.contains b a = false ->
   (0 < TimePeriod.duration r)%Z).
Proof.
  destruct a as [s1 e1], b as [s2 e2], r as [s e]. intros H1 H2 H.
  tp_cases; inversion H; subst; split; intros;
    first [lia | discriminate | exfalso; lia].
Qed.

Lemma timeperiod_intersection_wellformed_witness :
  (0 <= 10)%Z /\ (5 <= 15)%Z /\
  (0 <= TimePeriod.duration (TimePeriod.mk 5 10))%Z.
Proof.
  split; [lia|]. split; [lia|].
  exact (proj1 (timeperiod_intersection_wellformed
                  (TimePeriod.mk 0 10) (TimePeriod.mk 5 15)
                  ltac:(cbn; lia) ltac:(cbn; lia) eq_refl)).
Defined.

(** ** What start and stop do to the process table *)

Lemma start_ret_world testing h w u s' :
  start testing (mkMState h w) = Ret u s' ->
  w_next_pid (world s') = S (w_next_pid w) /\
  status (world s') (w_next_pid w) = Running /\
  forall q, q <> w_next_pid w -> w_procs (world s') q = w_procs w q.
Proof.
  open_state h w. unfold start, os_setpgrp. unfold_monad.
  cbn -[_locate_executable Popen_init append].
  destruct win, sl; cbn -[_locate_executable Popen_init append];
    try discriminate;
    rewrite locate_executable_resolves;
    cbn -[_locate_executable Popen_init append resolve];
    unfold Popen_init; unfold_monad;
    destruct testing; cbn -[append resolve];
    match goal with |- context [lau ?a] => destruct (lau a) eqn:Hl end;
    cbn -[append resolve]; try discriminate;
    intros Heq; inversion Heq; subst; unfold status; cbn -[append resolve];
    rewrite upd_same; (split; [reflexivity|]); (split; [reflexivity|]);
    intros q Hq; unfold upd; apply Nat.eqb_neq in Hq; now rewrite Hq.
Qed.

Lemma stop_ret_world h w u s' :
  stop (mkMState h w) = Ret u s' ->
  w_next_pid (world s') = w_next_pid w /\
  forall q, (forall p, _process h = Some p -> q <> pid p) ->
            w_procs (world s') q = w_procs w q.
Proof.
  destruct (started h) eqn:Hst.
  - open_state h w. cbn in Hst; subst st.
    stop_cases cur; intros Heq; inversion Heq; subst; cbn;
      (split; [reflexivity|]); intros q Hq; try reflexivity;
      specialize (Hq _ eq_refl); cbn in Hq; apply Nat.eqb_neq in Hq;
      now rewrite ?Hq.
  - rewrite stop_not_started_eq by exact Hst.
    intros Heq; inversion Heq; subst; cbn. now split.
Qed.

Lemma stop_ret_last h w u s' p :
  started h = true ->
  _process h = Some p ->
  stop (mkMState h w) = Ret u s' ->
  exists c, self s' = mkModule (name h) false None
                        (Some (mkPopen (pid p) (Some c) (stderr_of p))) (_log h).
Proof.
  intros Hst Hcur. open_state h w. cbn in Hst, Hcur; subst st. revert Hcur.
  stop_cases cur; intros Hcur; try discriminate Hcur; inversion Hcur; subst; cbn;
    intros Heq; inversion Heq; subst; eexists; reflexivity.
Qed.

Lemma stop_ret_not_running h w u s' p :
  started h = true ->
  _process h = Some p ->
  returncode p = None ->
  stop (mkMState h w) = Ret u s' ->
  running (world s') (pid p) = false.
Proof.
  intros Hst Hcur Hrc. open_state h w. cbn in Hst, Hcur; subst st.
  revert Hcur Hrc.
  stop_cases cur; intros Hq Hrc; try discriminate Hq; inversion Hq; subst;
    cbn in Hrc; try discriminate Hrc;
    intros Heq; inversion Heq; subst; cbn;
    rewrite ?Nat.eqb_refl; cbn; rewrite ?Hp; reflexivity.
Qed.

(** On a started handle whose process has ended, [stop] returns and
    starts, signals and waits for nothing. *)
Lemma stop_dead_ret h w :
  started h = true ->
  alive_now w h = false ->
  exists s',
    stop (mkMState h w) = Ret tt s' /\
    started (self s') = false /\ _process (self s') = None /\
    _last_process (self s') = option_map (polled w) (_process h) /\
    w_trace (world s') =
      (match _process h with Some p => [Poll (pid p)] | None => [] end
       ++ Log WARNING ("Tried to stop module " ++ name h ++ ", but it wasn't running")
       :: match _process h with Some p => [Poll (pid p)] | None => [] end
       ++ w_trace w)%list.
Proof.
  intros Hst Hal. open_state h w. cbn in Hst; subst st.
  unfold polled.
  stop_cases cur; try discriminate Hal; eexists; repeat split.
Qed.

(** ** Further properties of the module handle *)

(** X8: an [is_alive] that answered false keeps answering false in every
    later world, without asking the operating system again: the exit is
    cached in the handle. *)
Theorem is_alive_false_is_final h w s' :
  is_alive (mkMState h w) = Ret false s' ->
  forall w2,
    is_alive (mkMState (self s') w2) =
    Ret false (mkMState (self s')
                 match _process (self s') with
                 | None => w2
                 | Some p => set_trace (Poll (pid p) :: w_trace w2) w2
                 end).
Proof.
  rewrite is_alive_eq. intros H w2. apply is_alive_cached.
  destruct (_process h) as [p|] eqn:Hp; inversion H; subst; cbn [self].
  - cbn [_process set_process]. intros Hnone.
    apply returncode_polled in Hnone. destruct Hnone as [Hrc Hrun].
    unfold alive_now in *. rewrite Hp, Hrc, Hrun in *. discriminate.
  - now rewrite Hp.
Qed.

Lemma is_alive_false_is_final_witness :
  is_alive run_crashed =
    Ret false (mkMState
      (mkModule "aw-server" true (Some (mkPopen 101 (Some 1%Z) None)) None "")
      (after_poll (world run_crashed) (mkPopen 101 None None))) /\
  exists s', is_alive (mkMState
      (mkModule "aw-server" true (Some (mkPopen 101 (Some 1%Z) None)) None "") w0)
    = Ret false s'.
Proof.
  assert (H : is_alive (mkMState (self run_crashed) (world run_crashed)) =
              Ret false (mkMState
                (mkModule "aw-server" true (Some (mkPopen 101 (Some 1%Z) None)) None "")
                (after_poll (world run_crashed) (mkPopen 101 None None))))
    by (vm_compute; reflexivity).
  split; [exact H|].
  eexists. exact (is_alive_false_is_final _ _ H w0).
Defined.



(** X10: [start] on a handle that is already started spawns a second
    child and forgets the first: the first child keeps running, no field
    of the handle refers to it, and a later [stop] ends only the second. *)
Theorem double_start_orphans_first t1 t2 h w u1 s1 u2 s2 :
  start t1 (mkMState h w) = Ret u1 s1 ->
  start t2 s1 = Ret u2 s2 ->
  _process (self s2) = Some (mkPopen (S (w_next_pid w)) None None) /\
  _last_process (self s2) = _last_process h /\
  running (world s2) (w_next_pid w) = true /\
  forall u3 s3,
    stop s2 = Ret u3 s3 ->
    running (world s3) (w_next_pid w) = true /\
    running (world s3) (S (w_next_pid w)) = false /\
    _process (self s3) = None /\
    exists c, _last_process (self s3) =
              Some (mkPopen (S (w_next_pid w)) (Some c) None).
Proof.
  intros H1 H2. destruct s1 as [h1 w1], s2 as [h2 w2].
  destruct (start_ret _ _ _ H1) as (Hself1 & _).
  destruct (start_ret_world _ _ _ H1) as (Hnext1 & Hrun1 & _).
  destruct (start_ret _ _ _ H2) as (Hself2 & _).
  destruct (start_ret_world _ _ _ H2) as (_ & _ & Hrest2).
  cbn [self world] in *. rewrite Hnext1 in *.
  assert (Hfirst : running w2 (w_next_pid w) = true).
  { unfold running, status. rewrite Hrest2 by lia.
    fold (status w1 (w_next_pid w)). now rewrite Hrun1. }
  rewrite Hself2, Hself1. cbn [_process _last_process].
  split; [reflexivity|]. split; [reflexivity|]. split; [exact Hfirst|].
  intros u3 s3 H3.
  split; [|split; [|split]].
  - destruct (stop_ret_world _ _ H3) as (_ & Hrest3).
    unfold running, status. rewrite Hrest3.
    + exact Hfirst.
    + cbn. intros p Hp. inversion Hp. cbn. lia.
  - eapply (@stop_ret_not_running _ _ _ _ (mkPopen (S (w_next_pid w)) None None));
      [ | | | exact H3]; reflexivity.
  - now apply (stop_ret _ _ H3).
  - eapply (@stop_ret_last _ _ _ _ (mkPopen (S (w_next_pid w)) None None))
      in H3; [|reflexivity ..].
    destruct H3 as (c & Hc). exists c. now rewrite Hc.
Qed.

Lemma double_start_orphans_first_witness :
  start false fresh = Ret tt run_started /\
  (exists s2, start true run_started = Ret tt s2 /\
              running (world s2) 101 = true /\
              _process (self s2) = Some (mkPopen 102 None None)).
Proof.
  assert (H1 : start false (mkMState (self fresh) w0) = Ret tt run_started)
    by (vm_compute; reflexivity).
  split; [exact H1|].
  destruct (start true run_started) as [[] s2| |] eqn:H2;
    [|vm_compute in H2; discriminate H2 ..].
  exists s2. split; [reflexivity|].
  destruct (double_start_orphans_first _ _ _ _ H1 H2) as (Hp & _ & Hr & _).
  split; [exact Hr | exact Hp].
Defined.

(** X11: a second [stop] right after a [stop] that returned, in whatever
    world, is the no-op on a handle that is not started: one warning, the
    handle unchanged. *)
Theorem stop_twice_is_noop h w u s1 :
  stop (mkMState h w) = Ret u s1 ->
  forall w2,
    stop (mkMState (self s1) w2) =
    Ret tt (mkMState (self s1)
      (set_trace (Log WARNING ("Tried to stop module " ++ name (self s1) ++
                               ", but it hasn't been started") :: w_trace w2) w2)).
Proof.
  intros H w2. apply stop_not_started_eq. now apply (stop_ret _ _ H).
Qed.

Lemma stop_twice_is_noop_witness :
  stop run_started = Ret tt run_stopped /\
  exists s2, stop run_stopped = Ret tt s2 /\ self s2 = self run_stopped.
Proof.
  assert (H : stop (mkMState (self run_started) (world run_started)) =
              Ret tt run_stopped) by (vm_compute; reflexivity).
  split; [exact H|].
  eexists. split.
  - exact (stop_twice_is_noop _ _ H (world run_stopped)).
  - reflexivity.
Defined.

(** X12: [toggle] on a started handle whose process has ended on its own
    does not restart it: it only clears the handle, spawning nothing; the
    next [toggle] is the one that starts the module again. *)
Theorem toggle_on_crashed_only_stops t h w :
  started h = true ->
  alive_now w h = false ->
  exists s',
    toggle t (mkMState h w) = Ret tt s' /\
    started (self s') = false /\ _process (self s') = None /\
    spawns (w_trace (world s')) = spawns (w_trace w) /\
    forall t2 w2, toggle t2 (mkMState (self s') w2) =
                  start t2 (mkMState (self s') w2).
Proof.
  intros Hst Hal.
  destruct (stop_dead_ret h w Hst Hal) as (s' & Hs & Hst' & Hp' & _ & Htr).
  exists s'. unfold toggle, bind, getattr. cbn [self]. rewrite Hst.
  split; [exact Hs|]. split; [exact Hst'|]. split; [exact Hp'|]. split.
  - rewrite Htr. unfold spawns. now destruct (_process h).
  - intros t2 w2. now rewrite Hst'.
Qed.

Lemma toggle_on_crashed_only_stops_witness :
  started (self run_crashed) = true /\
  alive_now (world run_crashed) (self run_crashed) = false /\
  exists s', toggle false run_crashed = Ret tt s' /\ started (self s') = false.
Proof.
  split; [reflexivity|]. split; [reflexivity|].
  destruct (toggle_on_crashed_only_stops false (self run_crashed)
              (world run_crashed) eq_refl eq_refl) as (s' & H & Hst & _).
  exists s'. split; [exact H | exact Hst].
Defined.

(** X15: on Windows [start] does not touch process groups: it logs,
    spawns, and leaves the supervisor in the group it was in, which is
    also the group of the child. *)
Theorem start_on_windows_keeps_group t h w u s' :
  w_windows w = true ->
  start t (mkMState h w) = Ret u s' ->
  w_pgid (world s') = w_pgid w /\
  p_pgid (w_procs (world s') (w_next_pid w)) = w_pgid w /\
  w_trace (world s') =
    Spawn (start_argv w h t) (w_next_pid w)
    :: Log INFO ("Starting module " ++ name h) :: w_trace w.
Proof.
  intros Hwin Hs. destruct (start_ret _ _ _ Hs) as (_ & _ & Hg & Hc & Htr).
  rewrite Hwin in *. split; [exact Hg|]. split; [congruence | exact Htr].
Qed.

Lemma start_on_windows_keeps_group_witness :
  exists s',
    start false (mkMState (Module_init "aw-server")
                   (mkWorld true (Posix.ospath []) "manager.py" (Posix.launch [])
                            100 50 true 101 (fun _ => Posix.no_proc)
                            (fun _ => "") [])) = Ret tt s' /\
    w_pgid (world s') = 50.
Proof.
  set (w := mkWorld true (Posix.ospath []) "manager.py" (Posix.launch [])
                    100 50 true 101 (fun _ => Posix.no_proc) (fun _ => "") []).
  destruct (start false (mkMState (Module_init "aw-server") w))
    as [[] s'| |] eqn:H; [|vm_compute in H; discriminate H ..].
  exists s'. split; [reflexivity|].
  exact (proj1 (start_on_windows_keeps_group false (Module_init "aw-server") w
                  eq_refl H)).
Defined.



(** ** The accumulated log *)

Lemma stop_keeps_log h w u s' :
  stop (mkMState h w) = Ret u s' -> _log (self s') = _log h.
Proof.
  destruct (started h) eqn:Hst.
  - open_state h w. cbn in Hst; subst st.
    stop_cases cur; intros Heq; inversion Heq; reflexivity.
  - rewrite stop_not_started_eq by exact Hst.
    intros Heq; inversion Heq; reflexivity.
Qed.

Lemma stderr_keeps_log s :
  handle_ok s -> ends_in (stderr s) (fun s' => _log (self s') = _log (self s)).
Proof.
  intros (Ha & Hb & Hc & Hd).
  destruct s as [h w]. open_state h w. cbn [self world] in *.
  unfold started_has_process, process_is_started in *. cbn in Ha, Hb, Hc, Hd.
  unfold ends_in, stderr, is_alive, Popen_poll, Popen_stderr_read, collect,
    status, set_status, truthy in *.
  unfold_monad.
  destruct cur as [[pd rc se]|].
  - destruct (Hc _ eq_refl) as [_ Hse]. cbn in Hse. subst se.
    destruct st; [|specialize (Hb eq_refl); discriminate].
    destruct rc as [c|]; cbn -[append Nat.eqb]; [reflexivity|].
    destruct (p_status (procs pd)) eqn:Hp;
      cbn -[append Nat.eqb]; rewrite ?Nat.eqb_refl; cbn -[append Nat.eqb];
      reflexivity.
  - destruct st; [now elim (Ha eq_refl)|].
    destruct last as [[pd rc se]|]; cbn -[append Nat.eqb]; [|reflexivity].
    destruct (Hd _ eq_refl) as [_ Hse]. cbn in Hse. subst se.
    reflexivity.
Qed.

Lemma run_keeps_log c s s' :
  handle_ok s -> final (run c s) = Some s' -> _log (self s') = _log (self s).
Proof.
  intros Hs Hf. destruct s as [h w].
  assert (Hstart : forall t s1, final (start t (mkMState h w)) = Some s1 ->
                                _log (self s1) = _log h).
  { intros t s1 H1. destruct (start t (mkMState h w)) as [u s2|e s2|] eqn:E;
      cbn in H1; inversion H1; subst.
    - apply start_ret in E. destruct E as [-> _]. reflexivity.
    - apply start_raise in E. now rewrite E. }
  assert (Hstop : forall s1, final (stop (mkMState h w)) = Some s1 ->
                             _log (self s1) = _log h).
  { intros s1 H1. destruct (stop (mkMState h w)) as [u s2|e s2|] eqn:E;
      cbn in H1; inversion H1; subst.
    - now apply (stop_keeps_log _ _ E).
    - now apply stop_never_raises in E. }
  destruct c; cbn [run] in Hf.
  - now apply Hstart in Hf.
  - now apply Hstop.
  - unfold toggle, bind, getattr in Hf. cbn [self] in Hf.
    destruct (started h); [now apply Hstop | now apply Hstart in Hf].
  - unfold bind, ret in Hf. rewrite is_alive_eq in Hf.
    destruct (_process h); cbn in Hf; inversion Hf; reflexivity.
  - pose proof (stderr_keeps_log Hs) as Hl. unfold bind, ret in Hf.
    destruct (stderr (mkMState h w)); cbn in *; inversion Hf; subst; exact Hl.
Qed.

(** X14: in every reachable state the accumulated log of a handle is the
    empty string: no call ever adds captured output to it. *)
Theorem reachable_log_is_empty s :
  reachable s -> _log (self s) = "".
Proof.
  induction 1 as [name w | c s s' Hr IH Hrun | s w' _ IH Henv].
  - reflexivity.
  - rewrite (run_keeps_log c (reachable_ok Hr) Hrun). exact IH.
  - exact IH.
Qed.

Lemma reachable_log_is_empty_witness :
  reachable run_stopped /\ _log (self run_stopped) = "".
Proof.
  assert (Hr : reachable run_stopped).
  { apply reach_call with (c := CallStop) (s := run_started);
      [|vm_compute; reflexivity].
    apply reach_call with (c := CallStart false) (s := fresh);
      [apply reach_init | vm_compute; reflexivity]. }
  split; [exact Hr | exact (reachable_log_is_empty Hr)].
Defined.

(** ** Polling the registry again *)

Lemma running_visit_world w h q : running (visit_world w h) q = running w q.
Proof.
  unfold visit_world. destruct (started h); [|reflexivity].
  destruct (_process h); [apply running_after_poll | reflexivity].
Qed.

Lemma alive_now_polled w w1 h p :
  (forall q, running w1 q = running w q) ->
  _process h = Some p ->
  alive_now w1 (set_process (Some (polled w p)) h) = alive_now w h.
Proof.
  intros Hr Hp. unfold alive_now. cbn [_process set_process].
  rewrite Hp, pid_polled, Hr. unfold polled, running.
  destruct (returncode p) eqn:Ep; [now rewrite Ep|].
  destruct (status w (pid p)); cbn; now rewrite ?Ep.
Qed.

Lemma unexpected_now_visit w w1 h :
  (forall q, running w1 q = running w q) ->
  unexpected_now w1 (visit_handle w h) = unexpected_now w h.
Proof.
  intros Hr. unfold unexpected_now, visit_handle.
  destruct (started h) eqn:Hst.
  - destruct (_process h) as [p|] eqn:Hp.
    + cbn [started set_process]. rewrite Hst.
      now rewrite (@alive_now_polled w w1 h p Hr Hp).
    + rewrite Hst. now rewrite (@alive_now_ext w w1 h Hr).
  - now rewrite Hst.
Qed.

Lemma unexpected_visit h w :
  unexpected (mkMState h w) =
  Ret (unexpected_now w h) (mkMState (visit_handle w h) (visit_world w h)).
Proof.
  rewrite unexpected_eq. unfold unexpected_now, visit_handle, visit_world, alive_now.
  destruct (started h); [|reflexivity].
  now destruct (_process h).
Qed.

Lemma running_visit_all d w q : running (rworld (visit_all d w)) q = running w q.
Proof.
  revert w. induction d as [|[k h] d IH]; intros w; cbn; [reflexivity|].
  now rewrite IH, running_visit_world.
Qed.

Lemma filter_unexpected_ext w w1 l :
  (forall q, running w1 q = running w q) ->
  filter (unexpected_now w1) l = filter (unexpected_now w) l.
Proof.
  intros Hr. apply filter_ext. intros a. unfold unexpected_now.
  now rewrite (@alive_now_ext w w1 a Hr).
Qed.

(** The query as a function of the registry and the world. *)
Lemma get_unexpected_stops_eq d w :
  get_unexpected_stops (mkRState d w) =
  Ret (filter (unexpected_now w) (map snd (handles (visit_all d w))))
      (visit_all d w).
Proof.
  unfold get_unexpected_stops. cbn [handles rworld].
  revert w. induction d as [|[k h] d IH]; intros w; [reflexivity|].
  cbn [filter_values visit_all]. rewrite unexpected_visit. cbn [world self].
  rewrite IH. cbn [handles rworld map snd filter].
  rewrite (@unexpected_now_visit w w h (fun q => eq_refl)).
  rewrite (@filter_unexpected_ext w (visit_world w h) _ (running_visit_world w h)).
  reflexivity.
Qed.

Lemma polled_again w w1 p :
  (forall q, running w1 q = running w q) ->
  polled w1 (polled w p) = polled w p.
Proof.
  intros Hr. unfold polled at 1.
  destruct (returncode (polled w p)) eqn:E; [reflexivity|].
  apply returncode_polled in E. destruct E as [Hrc Hrun].
  rewrite pid_polled. rewrite <- Hr in Hrun. unfold running in Hrun.
  destruct (status w1 (pid p)); try discriminate. reflexivity.
Qed.

Lemma visit_handle_again w w1 h :
  (forall q, running w1 q = running w q) ->
  visit_handle w1 (visit_handle w h) = visit_handle w h.
Proof.
  intros Hr. unfold visit_handle.
  destruct (started h) eqn:Hst; [|now rewrite Hst].
  destruct (_process h) as [p|] eqn:Hp.
  - cbn [started _process set_process]. rewrite Hst.
    rewrite (@polled_again w w1 p Hr). reflexivity.
  - now rewrite Hst, Hp.
Qed.

Lemma visit_all_again d w w1 :
  (forall q, running w1 q = running w q) ->
  handles (visit_all (handles (visit_all d w)) w1) = handles (visit_all d w).
Proof.
  revert w w1. induction d as [|[k h] d IH]; intros w w1 Hr; [reflexivity|].
  cbn [visit_all handles]. rewrite (@visit_handle_again w w1 h Hr). f_equal.
  apply IH. intros q. now rewrite !running_visit_world.
Qed.

(** X13: asking [get_unexpected_stops] again, in a world where the same
    children run, reports the same handles and leaves the registry as the
    first call left it. *)
Theorem get_unexpected_stops_again d w l r1 :
  get_unexpected_stops (mkRState d w) = Ret l r1 ->
  forall w1, (forall q, running w1 q = running w q) ->
  exists w2,
    get_unexpected_stops (mkRState (handles r1) w1) =
      Ret l (mkRState (handles r1) w2) /\
    forall q, running w2 q = running w q.
Proof.
  rewrite get_unexpected_stops_eq. intros H w1 Hr. inversion H; subst.
  rewrite get_unexpected_stops_eq.
  exists (rworld (visit_all (handles (visit_all d w)) w1)).
  rewrite (@filter_unexpected_ext w w1 _ Hr), (@visit_all_again d w w1 Hr).
  split.
  - f_equal. destruct (visit_all (handles (visit_all d w)) w1) as [hs w2] eqn:E.
    cbn [rworld]. f_equal.
    change hs with (handles (mkRState hs w2)). rewrite <- E.
    apply (@visit_all_again d w w1 Hr).
  - intros q. now rewrite running_visit_all.
Qed.

Lemma get_unexpected_stops_again_witness :
  get_unexpected_stops (mkRState [("aw-server", self run_crashed)]
                                 (world run_crashed)) =
    Ret (map snd (handles (visit_all [("aw-server", self run_crashed)]
                                     (world run_crashed))))
        (visit_all [("aw-server", self run_crashed)] (world run_crashed)) /\
  exists r2,
    get_unexpected_stops (visit_all [("aw-server", self run_crashed)]
                                    (world run_crashed)) =
    Ret (map snd (handles (visit_all [("aw-server", self run_crashed)]
                                     (world run_crashed)))) r2.
Proof.
  set (d := [("aw-server", self run_crashed)]).
  set (r1 := visit_all d (world run_crashed)).
  assert (H : get_unexpected_stops (mkRState d (world run_crashed)) =
              Ret (map snd (handles r1)) r1) by (vm_compute; reflexivity).
  split; [exact H|].
  destruct (@get_unexpected_stops_again d (world run_crashed) _ _ H (rworld r1)
              (running_visit_all d (world run_crashed))) as (w2 & H2 & _).
  clearbody r1. destruct r1 as [hs w1]. eexists. exact H2.
Defined.

(** ** The self-test *)

Lemma main_body_ret sleep h w u s' :
  main_body sleep (mkMState h w) = Ret u s' ->
  name (self s') = name h /\ stopped (self s').
Proof.
  intros H. unfold main_body, bind in H.
  destruct (start false (mkMState h w)) as [u1 [h1 w1]| |] eqn:E1;
    try discriminate H.
  apply start_ret in E1. destruct E1 as (Hself & _). cbn [self] in Hself. subst h1.
  unfold liftW in H. cbn [world self] in H.
  destruct (sleep w1) as [[] w2| |]; try discriminate H.
  rewrite is_alive_eq in H. cbn [_process] in H.
  match type of H with
  | context [if ?b then _ else _] => destruct b; try discriminate H
  end.
  unfold ret in H.
  eapply (@stop_ret_last _ _ _ _ (polled w2 (mkPopen (w_next_pid w) None None)))
    in H; [|reflexivity ..].
  destruct H as (c & ->). cbn. split; [reflexivity|].
  repeat split. eexists. split; [reflexivity | discriminate].
Qed.

(** X17: whatever happens during the sleeps, a self-test run that returns
    has started, found alive and stopped every module of the registry:
    each handle ends not started, without a current process and with an
    ended process, exit status recorded, in [_last_process]. *)
Theorem main_returns_all_stopped sleep d w u r :
  main sleep (mkRState d w) = Ret u r ->
  Forall2 (fun kh kh' => fst kh' = fst kh /\
                         name (snd kh') = name (snd kh) /\
                         stopped (snd kh')) d (handles r).
Proof.
  unfold main. cbn [handles rworld].
  revert w r. induction d as [|[k h] d IH]; intros w r H; cbn [for_values] in H.
  - inversion H; subst. constructor.
  - destruct (main_body sleep (mkMState h w)) as [u1 s1| |] eqn:E1;
      try discriminate H.
    destruct (for_values (main_body sleep) d (world s1)) as [u2 r2| |] eqn:E2;
      try discriminate H.
    inversion H; subst. cbn [handles].
    constructor; [|now apply (IH _ _ E2)].
    destruct (main_body_ret _ _ _ E1) as [Hn Hs]. cbn. auto.
Qed.

Lemma main_returns_all_stopped_witness :
  exists r,
    main (ret tt) (mkRState modules w0) = Ret tt r /\
    map fst (handles r) = _possible_modules /\
    Forall (fun kh => stopped (snd kh)) (handles r).
Proof.
  destruct (main (ret tt) (mkRState modules w0)) as [[] r| |] eqn:H;
    [|vm_compute in H; discriminate H ..].
  exists r. split; [reflexivity|].
  pose proof (main_returns_all_stopped _ _ _ H) as HF.
  remember (handles r) as hs eqn:Ehs. clear Ehs H.
  unfold modules, _possible_modules in *. cbn [map] in HF.
  inversion HF as [|? y1 ? l1 [Hk1 [_ Hs1]] HF1]; subst.
  inversion HF1 as [|? y2 ? l2 [Hk2 [_ Hs2]] HF2]; subst.
  inversion HF2 as [|? y3 ? l3 [Hk3 [_ Hs3]] HF3]; subst.
  inversion HF3; subst. cbn in *.
  split; [now rewrite Hk1, Hk2, Hk3|].
  constructor; [exact Hs1|]. constructor; [exact Hs2|].
  constructor; [exact Hs3|]. constructor.
Defined.

(** X18: when the child is no longer running after the sleep, the body of
    the self-test raises AssertionError before [stop] is reached: the
    handle is left started, holding the ended process with its exit status
    cached. *)
Theorem main_body_asserts_alive sleep h w u1 s1 w2 :
  start false (mkMState h w) = Ret u1 s1 ->
  sleep (world s1) = Ret tt w2 ->
  running w2 (w_next_pid w) = false ->
  exists s',
    main_body sleep (mkMState h w) = Raise AssertionError s' /\
    started (self s') = true /\
    _last_process (self s') = _last_process h /\
    exists c, _process (self s') = Some (mkPopen (w_next_pid w) (Some c) None).
Proof.
  intros H1 H2 Hrun. unfold main_body, bind. rewrite H1.
  destruct s1 as [h1 w1]. apply start_ret in H1. destruct H1 as (Hself & _).
  cbn [self world] in *. subst h1.
  unfold liftW. cbn [world self]. rewrite H2.
  rewrite is_alive_eq. cbn [_process]. unfold alive_now. cbn [_process returncode pid].
  rewrite Hrun. eexists. split; [reflexivity|]. cbn.
  split; [reflexivity|]. split; [reflexivity|].
  unfold polled, running in *. cbn in *.
  destruct (status w2 (w_next_pid w)); try discriminate Hrun; eexists; reflexivity.
Qed.

Lemma main_body_asserts_alive_witness :
  start false fresh = Ret tt run_started /\
  exists s',
    main_body (modify (crash 101 1)) fresh = Raise AssertionError s' /\
    started (self s') = true.
Proof.
  assert (H1 : start false (mkMState (self fresh) w0) = Ret tt run_started)
    by (vm_compute; reflexivity).
  split; [exact H1|].
  destruct (@main_body_asserts_alive (modify (crash 101 1)) _ _ _ _
              (crash 101 1 (world run_started)) H1 eq_refl eq_refl)
    as (s' & H & Hst & _).
  exists s'. split; [exact H | exact Hst].
Defined.
